(** * Session aggregation and broadcast engine of [src/index.js]

    A shallow embedding of the Socket.IO handlers of the scanning relay
    ([session:start], [scan:result], [quantity:adjust], [session:finish],
    [ping]) together with the deferred eviction timers that
    [session:finish] schedules.

    Conventions of the embedding.
    - The clock [Date.now()] is an integer ([Z]).  In the handlers the
      numbers [quantity] and [delta] are integers ([Z]) and [delta] is
      present: that part embeds the payloads whose numbers are integers
      small enough for every sum and product to be exact in double
      arithmetic.  The lines that compute on these numbers are embedded a
      second time over IEEE-754 binary64, with absent fields, in [Num],
      [scannedItem64], [newQty64] and [adjustedItems64]; what is stated of
      the arithmetic for all payloads is stated there.
    - Identifiers carried by payloads ([sessionId], [itemName]) are
      [option string]: [None] is a field that is [undefined] (or a payload
      that is itself absent, which the handlers treat alike through
      [data?.x] and [data || {}]).  A value is falsy when it is [None] or
      the empty string.
    - [String.prototype.toUpperCase] is embedded for names made of ASCII
      characters; names with other letters are outside the embedding.
    - The JS [Map] [activeSessions] and the plain objects [session.items]
      and [ITEM_POINTS] are finite maps keyed by strings.  Upper-cased keys
      never meet a property inherited from [Object.prototype], whose names
      all contain a lower-case letter.
    - A handler runs to completion; it is a function from the world before
      to the world after and the list of messages emitted, in order.
    - Time is a clock in milliseconds that only moves forward between
      handlers.  A [setTimeout] callback is kept with its due time and runs
      in the turn in which the clock reaches it.  [connection] and
      [disconnect] touch no state and are left out. *)

From Stdlib Require Import ZArith NArith String Ascii List Lia SpecFloat.
From stdpp Require Import gmap strings list fin_maps pretty sorting.

Local Open Scope string_scope.
Local Open Scope Z_scope.

(** ** Strings *)

(** [c.toUpperCase()] for one ASCII character: a-z move to A-Z. *)
Definition upper_ascii (c : ascii) : ascii :=
  let n := N_of_ascii c in
  if ((97 <=? n) && (n <=? 122))%N then ascii_of_N (n - 32) else c.

Fixpoint toUpperCase (s : string) : string :=
  match s with
  | EmptyString => EmptyString
  | String c r => String (upper_ascii c) (toUpperCase r)
  end.

(** JS truthiness of an identifier field: [undefined] and [""] are falsy. *)
Definition truthy (v : option string) : option string :=
  match v with
  | Some s => if decide (s = "") then None else Some s
  | None => None
  end.

(** ** Scoring table *)

(** [const ITEM_POINTS = { APEL: 20, JERUK: 15, PISANG: 10, MANGGA: 25, DEFAULT: 10 }] *)
Definition ITEM_POINTS : gmap string Z :=
  list_to_map
    [("APEL", 20); ("JERUK", 15); ("PISANG", 10); ("MANGGA", 25); ("DEFAULT", 10)].

(** [a || b] on an optional number: [undefined] and [0] are falsy. *)
Definition js_or (a : option Z) (b : Z) : Z :=
  match a with
  | Some x => if Z.eqb x 0 then b else x
  | None => b
  end.

(** [ITEM_POINTS[key] || ITEM_POINTS.DEFAULT] *)
Definition perItemOf (key : string) : Z :=
  js_or (ITEM_POINTS !! key) (default 0 (ITEM_POINTS !! "DEFAULT")).

(** ** Data model *)

Module Item.
(** The object stored at [session.items[key]]; [lastScanned] is the clock
    value from which the ISO string is printed. *)
Record t : Type := mk
  { name : string;
    quantity : Z;
    pointsPerItem : Z;
    totalPoints : Z;
    lastScanned : Z }.
End Item.

Module Session.
(** The object stored in [activeSessions]; [lastUpdate] is absent until the
    first scan or adjustment. *)
Record t : Type := mk
  { id : string;
    items : gmap string Item.t;
    totalItems : Z;
    totalPoints : Z;
    startTime : Z;
    socketId : string;
    active : bool;
    lastUpdate : option Z }.
End Session.

(** [Object.values(items).reduce((s, it) => s + it.quantity, 0)]; the sum
    of integers does not depend on the order of enumeration. *)
Definition sumQuantity (items : gmap string Item.t) : Z :=
  map_fold (fun _ it s => s + Item.quantity it) 0 items.

(** [Object.values(items).reduce((s, it) => s + it.totalPoints, 0)] *)
Definition sumPoints (items : gmap string Item.t) : Z :=
  map_fold (fun _ it s => s + Item.totalPoints it) 0 items.

(** The world: the session store, the pending [setTimeout] callbacks (due
    time and the [sessionId] captured by the closure, in scheduling order)
    and the clock in milliseconds. *)
Record World : Type := mkWorld
  { activeSessions : gmap string Session.t;
    timers : list (Z * string);
    now : Z }.

Definition initial (t0 : Z) : World :=
  {| activeSessions := ∅; timers := []; now := t0 |}.

(** ** Messages *)

(** The [session: { totalItems, totalPoints, items, lastUpdate }] part of
    [scan:update] and [quantity:updated]. *)
Record Snapshot : Type := mkSnapshot
  { snap_totalItems : Z;
    snap_totalPoints : Z;
    snap_items : gmap string Item.t;
    snap_lastUpdate : Z }.

(** The [summary] of [session:finished]. *)
Record Summary : Type := mkSummary
  { sum_sessionId : string;
    sum_totalItems : Z;
    sum_totalPoints : Z;
    sum_items : gmap string Item.t;
    sum_duration : Z;
    sum_finishedAt : Z }.

(** Outbound payloads, one constructor per event name.  An [error] payload
    is its [message] and the identifier fields the handler put next to it. *)
Inductive Payload : Type :=
| SessionStarted (sessionId : string) (timestamp : Z)
| SessionConfirmed (sessionId : string)
| ErrorEvent (message : string) (fields : list (string * option string))
| ScanUpdate (sessionId : string) (item : Item.t) (session : Snapshot)
| InventoryUpdate (sessionId itemName : string) (quantity lastUpdate : Z)
| ScanConfirmed (item : Item.t) (totalPoints : Z)
| QuantityUpdated (sessionId itemName : string) (newQuantity : Z) (session : Snapshot)
| SessionFinished (summary : Summary)
| InventoryReset (sessionId : string)
| Pong (timestamp : Z).

(** [socket.emit] reaches the initiating connection only, [io.emit] all. *)
Inductive Emit : Type :=
| Direct (socket : string) (p : Payload)
| Broadcast (p : Payload).

(** Inbound events with the fields the handlers destructure. *)
Inductive Inbound : Type :=
| SessionStart (sessionId : option string)
| ScanResult (sessionId itemName : option string) (quantity : option Z)
| QuantityAdjust (sessionId itemName : option string) (delta : Z)
| SessionFinish (sessionId : option string)
| Ping.

(** ** Handlers *)

Definition setStore (m : gmap string Session.t) (w : World) : World :=
  {| activeSessions := m; timers := timers w; now := now w |}.

(** [socket.on("session:start", ...)]: the id is the requested one when it
    is truthy, else [`session_${socket.id}_${Date.now()}`]; the fresh
    object is stored with [activeSessions.set], whatever was there. *)
Definition effectiveId (socket : string) (requested : option string) (t : Z) : string :=
  match truthy requested with
  | Some s => s
  | None => "session_" +:+ socket +:+ "_" +:+ pretty t
  end.

Definition newSession (sessionId socket : string) (t : Z) : Session.t :=
  {| Session.id := sessionId;
     Session.items := ∅;
     Session.totalItems := 0;
     Session.totalPoints := 0;
     Session.startTime := t;
     Session.socketId := socket;
     Session.active := true;
     Session.lastUpdate := None |}.

Definition sessionStart (socket : string) (requested : option string) (w : World)
  : World * list Emit :=
  let sessionId := effectiveId socket requested (now w) in
  (setStore (<[sessionId := newSession sessionId socket (now w)]> (activeSessions w)) w,
   [Broadcast (SessionStarted sessionId (now w));
    Direct socket (SessionConfirmed sessionId)]).

(** The item object after the branch on [session.items[key]] of the scan
    handler: an existing entry is incremented in place, a missing one is
    created from the scanned quantity. *)
Definition scannedItem (old : option Item.t) (key : string) (qty t : Z) : Item.t :=
  let perItem := perItemOf key in
  let addPoints := perItem * qty in
  match old with
  | Some it =>
      {| Item.name := Item.name it;
         Item.quantity := Item.quantity it + qty;
         Item.pointsPerItem := Item.pointsPerItem it;
         Item.totalPoints := Item.totalPoints it + addPoints;
         Item.lastScanned := Item.lastScanned it |}
  | None =>
      {| Item.name := key;
         Item.quantity := qty;
         Item.pointsPerItem := perItem;
         Item.totalPoints := addPoints;
         Item.lastScanned := t |}
  end.

(** The session after its item mapping became [items']: both totals are
    recomputed from the whole mapping and [lastUpdate] is stamped. *)
Definition recompute (s : Session.t) (items' : gmap string Item.t) (t : Z) : Session.t :=
  {| Session.id := Session.id s;
     Session.items := items';
     Session.totalItems := sumQuantity items';
     Session.totalPoints := sumPoints items';
     Session.startTime := Session.startTime s;
     Session.socketId := Session.socketId s;
     Session.active := Session.active s;
     Session.lastUpdate := Some t |}.

Definition snapshotOf (s : Session.t) (t : Z) : Snapshot :=
  {| snap_totalItems := Session.totalItems s;
     snap_totalPoints := Session.totalPoints s;
     snap_items := Session.items s;
     snap_lastUpdate := t |}.

Definition scanSession (s : Session.t) (key : string) (qty t : Z) : Session.t :=
  recompute s (<[key := scannedItem (Session.items s !! key) key qty t]> (Session.items s)) t.

(** [socket.on("scan:result", ...)]; [quantity] defaults to [1] only when
    it is [undefined]. *)
Definition scanResult (socket : string) (sessionId itemName : option string)
    (quantity : option Z) (w : World) : World * list Emit :=
  let qty := default 1 quantity in
  match truthy sessionId, truthy itemName with
  | Some sid, Some nm =>
      match activeSessions w !! sid with
      | None =>
          (w, [Direct socket (ErrorEvent "Session not found" [("sessionId", Some sid)])])
      | Some session =>
          let key := toUpperCase nm in
          let session' := scanSession session key qty (now w) in
          let item := scannedItem (Session.items session !! key) key qty (now w) in
          (setStore (<[sid := session']> (activeSessions w)) w,
           [Broadcast (ScanUpdate sid item (snapshotOf session' (now w)));
            Broadcast (InventoryUpdate sid key (Item.quantity item) (now w));
            Direct socket (ScanConfirmed item (Session.totalPoints session'))])
      end
  | _, _ =>
      (w, [Direct socket
             (ErrorEvent "Invalid payload"
                [("sessionId", sessionId); ("itemName", itemName)])])
  end.

(** [Math.max(0, item.quantity + delta)] *)
Definition newQtyOf (it : Item.t) (delta : Z) : Z :=
  Z.max 0 (Item.quantity it + delta).

(** The item object after the [else] branch of the adjust handler:
    quantity, points and time stamp are overwritten in place. *)
Definition adjustedItem (it : Item.t) (delta t : Z) : Item.t :=
  let newQty := newQtyOf it delta in
  {| Item.name := Item.name it;
     Item.quantity := newQty;
     Item.pointsPerItem := Item.pointsPerItem it;
     Item.totalPoints := Item.pointsPerItem it * newQty;
     Item.lastScanned := t |}.

(** The item mapping after the branch on [newQty === 0]. *)
Definition adjustedItems (items : gmap string Item.t) (key : string) (it : Item.t)
    (delta t : Z) : gmap string Item.t :=
  if Z.eqb (newQtyOf it delta) 0 then delete key items
  else <[key := adjustedItem it delta t]> items.

(** [String(itemName || "").toUpperCase()]: a falsy name gives [""]. *)
Definition adjustKey (itemName : option string) : string :=
  toUpperCase (default "" (truthy itemName)).

(** [socket.on("quantity:adjust", ...)]; [activeSessions.get(undefined)]
    finds nothing, and the error is sent when the session or its entry
    under the key is missing. *)
Definition quantityAdjust (socket : string) (sessionId itemName : option string)
    (delta : Z) (w : World) : World * list Emit :=
  let key := adjustKey itemName in
  let notFound :=
    (w, [Direct socket
           (ErrorEvent "Session or item not found"
              [("sessionId", sessionId); ("itemName", Some key)])]) in
  match sessionId with
  | None => notFound
  | Some sid =>
      match activeSessions w !! sid with
      | None => notFound
      | Some session =>
          match Session.items session !! key with
          | None => notFound
          | Some item =>
              let newQty := newQtyOf item delta in
              let session' :=
                recompute session
                  (adjustedItems (Session.items session) key item delta (now w)) (now w) in
              (setStore (<[sid := session']> (activeSessions w)) w,
               [Broadcast (QuantityUpdated sid key newQty (snapshotOf session' (now w)));
                Broadcast (InventoryUpdate sid key newQty (now w))])
          end
      end
  end.

Definition deactivate (s : Session.t) : Session.t :=
  {| Session.id := Session.id s;
     Session.items := Session.items s;
     Session.totalItems := Session.totalItems s;
     Session.totalPoints := Session.totalPoints s;
     Session.startTime := Session.startTime s;
     Session.socketId := Session.socketId s;
     Session.active := false;
     Session.lastUpdate := Session.lastUpdate s |}.

(** The delay given to [setTimeout] in the finish handler. *)
Definition GRACE_MS : Z := 30000.

(** [socket.on("session:finish", ...)]: the summary is broadcast, the
    stored object is flagged inactive in place, and a callback deleting
    [sessionId] from the store is scheduled [GRACE_MS] later. *)
Definition sessionFinish (socket : string) (sessionId : option string) (w : World)
  : World * list Emit :=
  let notFound := (w, [Direct socket (ErrorEvent "Session not found" [])]) in
  match sessionId with
  | None => notFound
  | Some sid =>
      match activeSessions w !! sid with
      | None => notFound
      | Some session =>
          let summary :=
            {| sum_sessionId := sid;
               sum_totalItems := Session.totalItems session;
               sum_totalPoints := Session.totalPoints session;
               sum_items := Session.items session;
               sum_duration := now w - Session.startTime session;
               sum_finishedAt := now w |} in
          ({| activeSessions := <[sid := deactivate session]> (activeSessions w);
              timers := timers w ++ [(now w + GRACE_MS, sid)];
              now := now w |},
           [Broadcast (SessionFinished summary); Broadcast (InventoryReset sid)])
      end
  end.

(** [socket.on("ping", ...)] *)
Definition ping (socket : string) (w : World) : World * list Emit :=
  (w, [Direct socket (Pong (now w))]).

Definition handle (socket : string) (ev : Inbound) (w : World) : World * list Emit :=
  match ev with
  | SessionStart sessionId => sessionStart socket sessionId w
  | ScanResult sessionId itemName quantity => scanResult socket sessionId itemName quantity w
  | QuantityAdjust sessionId itemName delta => quantityAdjust socket sessionId itemName delta w
  | SessionFinish sessionId => sessionFinish socket sessionId w
  | Ping => ping socket w
  end.

(** ** The event loop *)

Definition isDue (t : Z) (tm : Z * string) : bool := Z.leb (fst tm) t.

(** The timer callback: [activeSessions.delete(sessionId)]. *)
Definition evict (m : gmap string Session.t) (tm : Z * string) : gmap string Session.t :=
  delete (snd tm) m.

(** The clock moves forward by [dt] milliseconds; every callback that is
    due by then runs, in scheduling order (all delays are equal and the
    clock never goes back, so this is also the order of due times).  The
    callbacks only delete keys, and none is ever unscheduled. *)
Definition advance (dt : N) (w : World) : World :=
  let t := now w + Z.of_N dt in
  {| activeSessions := foldl evict (activeSessions w) (List.filter (isDue t) (timers w));
     timers := List.filter (fun tm => negb (isDue t tm)) (timers w);
     now := t |}.

(** One turn of the loop: an inbound event from a connection, handled to
    completion at the current clock, or the passing of time. *)
Inductive Step : Type :=
| Recv (socket : string) (ev : Inbound)
| Tick (dt : N).

Definition step (st : Step) (w : World) : World * list Emit :=
  match st with
  | Recv socket ev => handle socket ev w
  | Tick dt => (advance dt w, [])
  end.

(** The world after a trace of turns, oldest first. *)
Definition run (tr : list Step) (w : World) : World :=
  foldl (fun w st => fst (step st w)) w tr.

(** Everything emitted along a trace, in order. *)
Fixpoint emitted (tr : list Step) (w : World) : list Emit :=
  match tr with
  | [] => []
  | st :: tr' => snd (step st w) ++ emitted tr' (fst (step st w))
  end.

(** ** Properties stated of sessions, items and traces *)


Definition isError (e : Emit) : bool :=
  match e with
  | Direct _ (ErrorEvent _ _) => true
  | _ => false
  end.

Definition isBroadcast (e : Emit) : bool :=
  match e with
  | Broadcast _ => true
  | Direct _ _ => false
  end.

(** [Q] holds of every stored session, [Q sid s] being a property of the
    session [s] stored under [sid]. *)
Definition allSessions (Q : string → Session.t → Prop) (w : World) : Prop :=
  ∀ sid s, activeSessions w !! sid = Some s → Q sid s.

(** [P] holds of every entry of every stored session, [P key it] being a
    property of the entry [it] stored under [key]. *)
Definition allItems (P : string → Item.t → Prop) (w : World) : Prop :=
  ∀ sid s key it,
    activeSessions w !! sid = Some s → Session.items s !! key = Some it → P key it.

(** The quantity carried by a turn, when it is a scan, satisfies [okQty]. *)
Definition okStep (okQty : Z → Prop) (st : Step) : Prop :=
  match st with
  | Recv _ (ScanResult _ _ q) => okQty (default 1 q)
  | _ => True
  end.

(** Every entry of every stored session has a quantity of at least one. *)
Definition quantitiesPositive (w : World) : Prop :=
  allItems (fun _ it => 1 ≤ Item.quantity it) w.

(** The scenario of the specification: start [s1], scan [APEL] twice over,
    scan [apel] once. *)
Definition scenario : list Step :=
  [Recv "c1" (SessionStart (Some "s1"));
   Recv "c1" (ScanResult (Some "s1") (Some "APEL") (Some 2));
   Recv "c1" (ScanResult (Some "s1") (Some "apel") None)].

(** [s1] started and finished, its eviction still pending. *)
Definition finishedWorld : World :=
  run [Recv "c1" (SessionStart (Some "s1")); Recv "c1" (SessionFinish (Some "s1"))]
      (initial 0).

(** The item entry of [key] in the session stored under [sid], if any. *)
Definition entryOf (w : World) (sid key : string) : option Item.t :=
  activeSessions w !! sid ≫= fun s => Session.items s !! key.

(** A turn that handles a scan, an adjustment or a ping: it neither starts
    nor finishes a session and lets no time pass. *)
Definition isUse (st : Step) : Prop :=
  match st with
  | Recv _ (ScanResult _ _ _) | Recv _ (QuantityAdjust _ _ _) | Recv _ Ping => True
  | _ => False
  end.

(** The trace of the restart scenario: [s1] is started and finished at time
    [0]; ten seconds later another connection starts [s1] again and scans
    into it. *)
Definition restartTrace : list Step :=
  [Recv "c1" (SessionStart (Some "s1"));
   Recv "c1" (SessionFinish (Some "s1"));
   Tick 10000;
   Recv "c2" (SessionStart (Some "s1"));
   Recv "c2" (ScanResult (Some "s1") (Some "MANGGA") None)].

(** The world after [socket] finished [sid], and after it started [sid]. *)
Definition finished (socket sid : string) (w : World) : World :=
  fst (sessionFinish socket (Some sid) w).

Definition started (socket sid : string) (w : World) : World :=
  fst (sessionStart socket (Some sid) w).

(** The session id an inbound event addresses: the effective id of a
    start, the [sessionId] field of a scan, an adjustment or a finish. *)
Definition addressed (socket : string) (ev : Inbound) (w : World) : option string :=
  match ev with
  | SessionStart requested => Some (effectiveId socket requested (now w))
  | ScanResult sessionId _ _ => sessionId
  | QuantityAdjust sessionId _ _ => sessionId
  | SessionFinish sessionId => sessionId
  | Ping => None
  end.

Definition isStart (ev : Inbound) : bool :=
  match ev with
  | SessionStart _ => true
  | _ => false
  end.

(** The pending callbacks are in order of due time, and each is due after
    the current clock and at most [GRACE_MS] after it. *)
Definition dueLe (a b : Z * string) : Prop := fst a ≤ fst b.

Definition timersOk (w : World) : Prop :=
  StronglySorted dueLe (timers w) ∧
  Forall (fun tm => now w < fst tm ≤ now w + GRACE_MS) (timers w).

(** A turn that is not a finish of [sid]. *)
Definition notFinishOf (sid : string) (st : Step) : Prop :=
  match st with
  | Recv _ (SessionFinish (Some k)) => k ≠ sid
  | _ => True
  end.

(** The time stamps of a stored session are not ahead of the clock. *)
Definition timesOk (w : World) : Prop :=
  ∀ sid s, activeSessions w !! sid = Some s →
    Session.startTime s ≤ now w ∧
    ∀ t, Session.lastUpdate s = Some t → Session.startTime s ≤ t ≤ now w.

(** ** The arithmetic of the handlers on JS numbers

    A JS number is an IEEE-754 binary64 value.  The lines of the scan and
    adjust handlers that compute on [quantity], [delta] and the points are
    embedded here over binary64, with the payload field absent ([None])
    where the handler reads [undefined]. *)

Module Num.
Definition t : Type := spec_float.

(** The number written as the integer literal [z], rounded to nearest. *)
Definition ofZ (z : Z) : t := binary_normalize 53 1024 z 0 false.

(** [a + b] and [a * b]. *)
Definition add (a b : t) : t := SFadd 53 1024 a b.

Definition mul (a b : t) : t := SFmul 53 1024 a b.

(** [a === b]: false on [NaN], true on zeros of either sign. *)
Definition strictEq (a b : t) : bool := SFeqb a b.


(** [Math.max(a, b)]: [NaN] when either is, and [+0] above [-0]. *)
Definition max (a b : t) : t :=
  match SFcompare a b with
  | None => S754_nan
  | Some Lt => b
  | Some Gt => a
  | Some Eq =>
      match a with
      | S754_zero true => b
      | _ => a
      end
  end.

End Num.

Module Item64.
(** The object stored at [session.items[key]], its numbers as binary64. *)
Record t : Type := mk
  { name : string;
    quantity : Num.t;
    pointsPerItem : Num.t;
    totalPoints : Num.t;
    lastScanned : Z }.
End Item64.

(** Lines 104-118 of the scan handler: [perItem], [addPoints] and the
    branch on [session.items[key]]; [quantity] is [1] when [undefined]. *)
Definition scannedItem64 (old : option Item64.t) (key : string)
    (quantity : option Num.t) (t : Z) : Item64.t :=
  let qty := default (Num.ofZ 1) quantity in
  let perItem := Num.ofZ (perItemOf key) in
  let addPoints := Num.mul perItem qty in
  match old with
  | Some it =>
      {| Item64.name := Item64.name it;
         Item64.quantity := Num.add (Item64.quantity it) qty;
         Item64.pointsPerItem := Item64.pointsPerItem it;
         Item64.totalPoints := Num.add (Item64.totalPoints it) addPoints;
         Item64.lastScanned := Item64.lastScanned it |}
  | None =>
      {| Item64.name := key;
         Item64.quantity := qty;
         Item64.pointsPerItem := perItem;
         Item64.totalPoints := addPoints;
         Item64.lastScanned := t |}
  end.



(** The characters of a name are ASCII. *)
Definition isAscii (s : string) : Prop :=
  Forall (fun c => (N_of_ascii c < 128)%N) (list_ascii_of_string s).

(** ** Basic facts about the loop *)

Lemma run_cons st tr w : run (st :: tr) w = run tr (fst (step st w)).
Proof. reflexivity. Qed.

(** An invariant of every turn is an invariant of every trace. *)
Lemma run_invariant (P : World → Prop) :
  (∀ st w, P w → P (fst (step st w))) →
  ∀ tr w, P w → P (run tr w).
Proof.
  intros Hstep tr. induction tr as [|st tr IH]; intros w Hw; [exact Hw|].
  rewrite run_cons. apply IH, Hstep, Hw.
Qed.

Lemma truthy_Some v s : truthy v = Some s → v = Some s ∧ s ≠ "".
Proof.
  destruct v as [x|]; simpl; [|discriminate].
  destruct (decide (x = "")); [discriminate|]. intros [= ->]. auto.
Qed.

Lemma truthy_nonempty s : s ≠ "" → truthy (Some s) = Some s.
Proof. intros Hs. simpl. destruct (decide (s = "")); congruence. Qed.

Lemma lookup_foldl_evict (l : list (Z * string)) (m : gmap string Session.t) k :
  foldl evict m l !! k = if decide (k ∈ l.*2) then None else m !! k.
Proof.
  revert m. induction l as [|[d k'] l IH]; intros m; simpl.
  - destruct (decide (k ∈ [])) as [H|_]; [inversion H|reflexivity].
  - rewrite IH. unfold evict; simpl.
    destruct (decide (k ∈ l.*2)) as [Hin|Hout].
    + rewrite decide_True; [reflexivity|]. by apply list_elem_of_further.
    + destruct (decide (k = k')) as [->|Hne].
      * rewrite lookup_delete_eq. rewrite decide_True; [reflexivity|]. apply list_elem_of_here.
      * rewrite lookup_delete_ne by congruence.
        rewrite decide_False; [reflexivity|].
        intros H. simpl in H. apply elem_of_cons in H as [?|?]; [congruence|contradiction].
Qed.

Lemma lookup_advance_Some dt w k s :
  activeSessions (advance dt w) !! k = Some s → activeSessions w !! k = Some s.
Proof.
  unfold advance; simpl. rewrite lookup_foldl_evict.
  destruct (decide _); [discriminate|auto].
Qed.




(** What [session:finish] does once the lookup is unfolded. *)
Lemma sessionFinish_found sock sid s w :
  activeSessions w !! sid = Some s →
  sessionFinish sock (Some sid) w =
    ({| activeSessions := <[sid := deactivate s]> (activeSessions w);
        timers := timers w ++ [(now w + GRACE_MS, sid)];
        now := now w |},
     [Broadcast (SessionFinished
        {| sum_sessionId := sid;
           sum_totalItems := Session.totalItems s;
           sum_totalPoints := Session.totalPoints s;
           sum_items := Session.items s;
           sum_duration := now w - Session.startTime s;
           sum_finishedAt := now w |});
      Broadcast (InventoryReset sid)]).
Proof. intros H. unfold sessionFinish. rewrite H. reflexivity. Qed.

Lemma sessionFinish_missing sock sessionId w :
  (sessionId ≫= fun sid => activeSessions w !! sid) = None →
  sessionFinish sock sessionId w = (w, [Direct sock (ErrorEvent "Session not found" [])]).
Proof.
  intros H. unfold sessionFinish. destruct sessionId as [sid|]; simpl in *; [|reflexivity].
  rewrite H. reflexivity.
Qed.

(** ** Invariants of stored sessions *)

Section SessionInvariant.
(** [Q sid s] is a property of the session [s] stored under [sid] that the
    three ways of writing a session into the store establish or keep. *)
Variable Q : string → Session.t → Prop.
Hypothesis Q_new : ∀ sid sock t, Q sid (newSession sid sock t).
Hypothesis Q_recompute : ∀ sid s items' t, Q sid s → Q sid (recompute s items' t).
Hypothesis Q_deactivate : ∀ sid s, Q sid s → Q sid (deactivate s).

Lemma allSessions_step st w :
  allSessions Q w → allSessions Q (fst (step st w)).
Proof.
  intros Hw sid s. destruct st as [sock ev|dt]; simpl.
  - destruct ev as [req|sessionId itemName q|sessionId itemName delta|sessionId|]; simpl.
    + rewrite lookup_insert. case_decide; [|apply Hw].
      intros [= <-]. subst sid. apply Q_new.
    + unfold scanResult.
      destruct (truthy sessionId) as [k|]; [|apply Hw].
      destruct (truthy itemName) as [nm|]; [|apply Hw].
      destruct (activeSessions w !! k) as [s0|] eqn:Hk; [|apply Hw].
      simpl. rewrite lookup_insert. case_decide; [|apply Hw].
      intros [= <-]. subst sid. apply Q_recompute, Hw, Hk.
    + unfold quantityAdjust.
      destruct sessionId as [k|]; [|apply Hw].
      destruct (activeSessions w !! k) as [s0|] eqn:Hk; [|apply Hw].
      destruct (Session.items s0 !! _) as [it|]; [|apply Hw].
      simpl. rewrite lookup_insert. case_decide; [|apply Hw].
      intros [= <-]. subst sid. apply Q_recompute, Hw, Hk.
    + destruct sessionId as [k|]; [|apply Hw].
      destruct (activeSessions w !! k) as [s0|] eqn:Hk.
      * rewrite (sessionFinish_found _ _ _ _ Hk). simpl.
        rewrite lookup_insert. case_decide; [|apply Hw].
        intros [= <-]. subst sid. apply Q_deactivate, Hw, Hk.
      * rewrite sessionFinish_missing by (simpl; exact Hk). apply Hw.
    + apply Hw.
  - intros H. eapply Hw, lookup_advance_Some, H.
Qed.

Lemma allSessions_reachable t0 tr : allSessions Q (run tr (initial t0)).
Proof.
  apply (run_invariant (allSessions Q)).
  - intros st w. apply allSessions_step.
  - intros sid s H. simpl in H. rewrite lookup_empty in H. discriminate.
Qed.
End SessionInvariant.


Lemma id_is_key_reachable t0 tr sid s :
  activeSessions (run tr (initial t0)) !! sid = Some s → Session.id s = sid.
Proof.
  apply (allSessions_reachable (fun sid s => Session.id s = sid)); intros; simpl; auto.
Qed.

(** ** Session totals *)



(** ** Unfolding the scan and adjust handlers *)

Lemma scanResult_found sock sid nm q w s :
  sid ≠ "" → nm ≠ "" → activeSessions w !! sid = Some s →
  scanResult sock (Some sid) (Some nm) q w =
    (setStore (<[sid := scanSession s (toUpperCase nm) (default 1 q) (now w)]>
                 (activeSessions w)) w,
     [Broadcast (ScanUpdate sid
        (scannedItem (Session.items s !! toUpperCase nm) (toUpperCase nm) (default 1 q) (now w))
        (snapshotOf (scanSession s (toUpperCase nm) (default 1 q) (now w)) (now w)));
      Broadcast (InventoryUpdate sid (toUpperCase nm)
        (Item.quantity
           (scannedItem (Session.items s !! toUpperCase nm) (toUpperCase nm) (default 1 q) (now w)))
        (now w));
      Direct sock (ScanConfirmed
        (scannedItem (Session.items s !! toUpperCase nm) (toUpperCase nm) (default 1 q) (now w))
        (Session.totalPoints (scanSession s (toUpperCase nm) (default 1 q) (now w))))]).
Proof.
  intros Hsid Hnm Hs. unfold scanResult.
  rewrite !truthy_nonempty by assumption. rewrite Hs. reflexivity.
Qed.

Lemma scanResult_missing sock sid nm q w :
  sid ≠ "" → nm ≠ "" → activeSessions w !! sid = None →
  scanResult sock (Some sid) (Some nm) q w =
    (w, [Direct sock (ErrorEvent "Session not found" [("sessionId", Some sid)])]).
Proof.
  intros Hsid Hnm Hs. unfold scanResult.
  rewrite !truthy_nonempty by assumption. rewrite Hs. reflexivity.
Qed.

Lemma scanResult_invalid sock sessionId itemName q w :
  truthy sessionId = None ∨ truthy itemName = None →
  scanResult sock sessionId itemName q w =
    (w, [Direct sock (ErrorEvent "Invalid payload"
                        [("sessionId", sessionId); ("itemName", itemName)])]).
Proof.
  intros H. unfold scanResult.
  destruct (truthy sessionId), (truthy itemName), H; try discriminate; reflexivity.
Qed.

Lemma quantityAdjust_found sock sid itemName delta w s it :
  activeSessions w !! sid = Some s →
  Session.items s !! adjustKey itemName = Some it →
  quantityAdjust sock (Some sid) itemName delta w =
    (setStore (<[sid := recompute s
                   (adjustedItems (Session.items s) (adjustKey itemName) it delta (now w))
                   (now w)]> (activeSessions w)) w,
     [Broadcast (QuantityUpdated sid (adjustKey itemName) (newQtyOf it delta)
        (snapshotOf (recompute s
           (adjustedItems (Session.items s) (adjustKey itemName) it delta (now w))
           (now w)) (now w)));
      Broadcast (InventoryUpdate sid (adjustKey itemName) (newQtyOf it delta) (now w))]).
Proof. intros Hs Hit. unfold quantityAdjust. rewrite Hs, Hit. reflexivity. Qed.

Lemma quantityAdjust_missing sock sessionId itemName delta w :
  (sessionId ≫= fun sid => activeSessions w !! sid)
     ≫= (fun s => Session.items s !! adjustKey itemName) = None →
  quantityAdjust sock sessionId itemName delta w =
    (w, [Direct sock (ErrorEvent "Session or item not found"
                        [("sessionId", sessionId); ("itemName", Some (adjustKey itemName))])]).
Proof.
  intros H. unfold quantityAdjust.
  destruct sessionId as [sid|]; simpl in H; [|reflexivity].
  destruct (activeSessions w !! sid) as [s|]; simpl in H; [|reflexivity].
  rewrite H. reflexivity.
Qed.

(** ** Invariants of item entries *)

Section ItemInvariant.
(** [P key it] is a property of the entry stored under [key]; [okQty]
  restricts the quantities that scans may carry. *)
Variable P : string → Item.t → Prop.
Variable okQty : Z → Prop.
Hypothesis P_scan : ∀ key old q t,
  okQty q → (∀ it, old = Some it → P key it) → P key (scannedItem old key q t).
Hypothesis P_adjust : ∀ key it delta t,
  P key it → newQtyOf it delta ≠ 0 → P key (adjustedItem it delta t).

Lemma allItems_step st w : okStep okQty st → allItems P w → allItems P (fst (step st w)).
Proof.
  intros Hst Hw sid s key it. destruct st as [sock ev|dt]; simpl.
  - destruct ev as [req|sessionId itemName q|sessionId itemName delta|sessionId|]; simpl.
    + rewrite lookup_insert. case_decide; [|apply Hw].
      intros [= <-]. simpl. rewrite lookup_empty. discriminate.
    + unfold scanResult.
      destruct (truthy sessionId) as [k|]; [|apply Hw].
      destruct (truthy itemName) as [nm|]; [|apply Hw].
      destruct (activeSessions w !! k) as [s0|] eqn:Hk; [|apply Hw].
      simpl. rewrite lookup_insert. case_decide; [|apply Hw].
      intros [= <-]. simpl. rewrite lookup_insert. case_decide.
      * intros [= <-]. subst key. apply P_scan; [exact Hst|].
        intros it0 H0. eapply Hw; eauto.
      * eapply Hw; eauto.
    + unfold quantityAdjust.
      destruct sessionId as [k|]; [|apply Hw].
      destruct (activeSessions w !! k) as [s0|] eqn:Hk; [|apply Hw].
      destruct (Session.items s0 !! _) as [it0|] eqn:Hit; [|apply Hw].
      simpl. rewrite lookup_insert. case_decide; [|apply Hw].
      intros [= <-]. simpl. unfold adjustedItems.
      destruct (Z.eqb_spec (newQtyOf it0 delta) 0) as [Hz|Hnz].
      * rewrite lookup_delete. case_decide; [discriminate|]. eapply Hw; eauto.
      * rewrite lookup_insert. case_decide; [|eapply Hw; eauto].
        intros [= <-]. subst key. apply P_adjust; [|exact Hnz]. eapply Hw; eauto.
    + destruct sessionId as [k|]; [|apply Hw].
      destruct (activeSessions w !! k) as [s0|] eqn:Hk.
      * rewrite (sessionFinish_found _ _ _ _ Hk). simpl.
        rewrite lookup_insert. case_decide; [|apply Hw].
        intros [= <-]. simpl. eapply Hw; eauto.
      * rewrite sessionFinish_missing by (simpl; exact Hk). apply Hw.
    + apply Hw.
  - intros H. eapply Hw, lookup_advance_Some, H.
Qed.

Lemma allItems_run tr : ∀ w, Forall (okStep okQty) tr → allItems P w → allItems P (run tr w).
Proof.
  induction tr as [|st tr IH]; intros w Htr Hw; [exact Hw|].
  inversion Htr; subst. rewrite run_cons. apply IH; [assumption|].
  apply allItems_step; assumption.
Qed.
End ItemInvariant.

(** ** Adjustments *)

Lemma newQtyOf_nonneg it delta : 0 ≤ newQtyOf it delta.
Proof. unfold newQtyOf. lia. Qed.

(** C7: when the session is missing, or is stored but has no entry under
    the normalized item code, the adjustment leaves the world as it was and
    emits exactly one message, the direct [error] "Session or item not
    found" to the initiating connection, hence no broadcast; and whatever
    the payload, no session gains an item key through an adjustment. *)
Theorem adjust_missing_fails sock sessionId itemName delta w :
  ((sessionId ≫= fun sid => activeSessions w !! sid) = None ∨
   (∃ s, (sessionId ≫= fun sid => activeSessions w !! sid) = Some s ∧
         Session.items s !! adjustKey itemName = None) →
   quantityAdjust sock sessionId itemName delta w =
     (w, [Direct sock (ErrorEvent "Session or item not found"
            [("sessionId", sessionId); ("itemName", Some (adjustKey itemName))])])) ∧
  (∀ sid s' k,
     activeSessions (fst (quantityAdjust sock sessionId itemName delta w)) !! sid = Some s' →
     is_Some (Session.items s' !! k) →
     ∃ s, activeSessions w !! sid = Some s ∧ is_Some (Session.items s !! k)).
Proof.
  split.
  - intros H. apply quantityAdjust_missing.
    destruct H as [->|(s & -> & Hk)]; [reflexivity|exact Hk].
  - intros sid s' k. unfold quantityAdjust.
    destruct sessionId as [sid0|]; [|simpl; eauto].
    destruct (activeSessions w !! sid0) as [s0|] eqn:Hs0; [|simpl; eauto].
    destruct (Session.items s0 !! adjustKey itemName) as [it|] eqn:Hit; [|simpl; eauto].
    simpl. rewrite lookup_insert. case_decide; [|eauto].
    intros [= <-]. subst sid. simpl. intros Hk. exists s0. split; [exact Hs0|].
    unfold adjustedItems in Hk. destruct (Z.eqb _ 0).
    + rewrite lookup_delete in Hk. case_decide; [destruct Hk; discriminate|exact Hk].
    + rewrite lookup_insert in Hk. case_decide; [subst k; eauto|exact Hk].
Qed.

Lemma adjust_missing_fails_witness :
  quantityAdjust "c1" (Some "s1") (Some "kiwi") 1 (run scenario (initial 0)) =
    (run scenario (initial 0),
     [Direct "c1" (ErrorEvent "Session or item not found"
        [("sessionId", Some "s1"); ("itemName", Some "KIWI")])]).
Proof.
  apply (proj1 (adjust_missing_fails "c1" (Some "s1") (Some "kiwi") 1 (run scenario (initial 0)))).
  right. eexists. split; vm_compute; reflexivity.
Defined.

(** ** Quantities of at least one *)

(** Over integer quantities and deltas: starting, adjusting, finishing and
    evicting keep every quantity at least one, and so does a scan that
    carries a quantity of at least one. *)
Lemma quantitiesPositive_run tr w :
  Forall (okStep (fun q => 1 ≤ q)) tr →
  quantitiesPositive w → quantitiesPositive (run tr w).
Proof.
  apply allItems_run.
  - intros key old q t Hq Hold. destruct old as [it|]; simpl; [|exact Hq].
    specialize (Hold it eq_refl). simpl in Hold. lia.
  - intros key it delta t _ Hnz. simpl.
    pose proof (newQtyOf_nonneg it delta). lia.
Qed.

(** C1: a [scan:result] of a new item with quantity [0] stores an entry of
    quantity [0], and one with quantity [-2] stores an entry of quantity
    [-2]: the worlds reached do not have all quantities at least one. *)
Theorem scan_nonpositive_quantity_retained :
  entryOf (run [Recv "c1" (SessionStart (Some "s1"));
                Recv "c1" (ScanResult (Some "s1") (Some "APEL") (Some 0))] (initial 0))
          "s1" "APEL"
    = Some (Item.mk "APEL" 0 20 0 0) ∧
  entryOf (run [Recv "c1" (SessionStart (Some "s1"));
                Recv "c1" (ScanResult (Some "s1") (Some "APEL") (Some (-2)))] (initial 0))
          "s1" "APEL"
    = Some (Item.mk "APEL" (-2) 20 (-40) 0) ∧
  ¬ quantitiesPositive
      (run [Recv "c1" (SessionStart (Some "s1"));
            Recv "c1" (ScanResult (Some "s1") (Some "APEL") (Some 0))] (initial 0)).
Proof.
  split; [vm_compute; reflexivity|]. split; [vm_compute; reflexivity|].
  intros H.
  assert (1 ≤ 0); [|lia].
  apply (H "s1" (scanSession (newSession "s1" "c1" 0) "APEL" 0 0) "APEL"
           (Item.mk "APEL" 0 20 0 0)); vm_compute; reflexivity.
Qed.

(** ** Scans and the session lookup *)

(** C2, as the code has it: a scan with a well-formed payload fails with
    the direct [error] "Session not found", the world unchanged and nothing
    broadcast, when no session is stored under the id; when one is stored
    the scan is applied to it and no error is emitted, whatever its
    [active] flag says. *)
Theorem scan_unknown_session_fails sock sid nm q w :
  sid ≠ "" → nm ≠ "" →
  (activeSessions w !! sid = None →
   scanResult sock (Some sid) (Some nm) q w =
     (w, [Direct sock (ErrorEvent "Session not found" [("sessionId", Some sid)])])) ∧
  (∀ s, activeSessions w !! sid = Some s →
   fst (scanResult sock (Some sid) (Some nm) q w) =
     setStore (<[sid := scanSession s (toUpperCase nm) (default 1 q) (now w)]>
                 (activeSessions w)) w ∧
   existsb isError (snd (scanResult sock (Some sid) (Some nm) q w)) = false).
Proof.
  intros Hsid Hnm. split.
  - apply scanResult_missing; assumption.
  - intros s Hs. rewrite (scanResult_found _ _ _ _ _ _ Hsid Hnm Hs). split; reflexivity.
Qed.

Lemma scan_unknown_session_fails_witness :
  scanResult "c1" (Some "s2") (Some "apel") None (run scenario (initial 0)) =
    (run scenario (initial 0),
     [Direct "c1" (ErrorEvent "Session not found" [("sessionId", Some "s2")])]).
Proof.
  apply (proj1 (scan_unknown_session_fails "c1" "s2" "apel" None (run scenario (initial 0))
                  ltac:(discriminate) ltac:(discriminate))).
  vm_compute; reflexivity.
Defined.

(** C2, as stated, fails: [s1] has been finished and is flagged inactive,
    yet a scan against it emits no error, is broadcast, and creates an
    entry in the stored session. *)
Lemma scan_inactive_session_applied :
  Session.active <$> activeSessions finishedWorld !! "s1" = Some false ∧
  entryOf finishedWorld "s1" "APEL" = None ∧
  existsb isError
    (snd (scanResult "c2" (Some "s1") (Some "APEL") None finishedWorld)) = false ∧
  existsb isBroadcast
    (snd (scanResult "c2" (Some "s1") (Some "APEL") None finishedWorld)) = true ∧
  entryOf (fst (scanResult "c2" (Some "s1") (Some "APEL") None finishedWorld)) "s1" "APEL"
    = Some (Item.mk "APEL" 1 20 20 0).
Proof. repeat split; vm_compute; reflexivity. Qed.

(** ** Starting under an id in use *)

(** C3, as the code has it: each stored session is stored under its own
    id, so ids are unique in the store; a start never fails: it emits
    [session:started] to all and [session:confirmed] to the initiator,
    stores a fresh session (no items, zero totals, active) under the
    effective id in place of whatever was there, and leaves the sessions
    under other ids alone. *)
Theorem start_installs_fresh_session sock requested w :
  (∀ t0 tr sid s,
     activeSessions (run tr (initial t0)) !! sid = Some s → Session.id s = sid) ∧
  snd (sessionStart sock requested w) =
    [Broadcast (SessionStarted (effectiveId sock requested (now w)) (now w));
     Direct sock (SessionConfirmed (effectiveId sock requested (now w)))] ∧
  activeSessions (fst (sessionStart sock requested w)) !! effectiveId sock requested (now w)
    = Some (newSession (effectiveId sock requested (now w)) sock (now w)) ∧
  (∀ k, k ≠ effectiveId sock requested (now w) →
     activeSessions (fst (sessionStart sock requested w)) !! k = activeSessions w !! k).
Proof.
  split; [apply id_is_key_reachable|].
  split; [reflexivity|]. simpl. split.
  - apply lookup_insert_eq.
  - intros k Hk. apply lookup_insert_ne. congruence.
Qed.

Lemma start_installs_fresh_session_witness :
  activeSessions (run scenario (initial 0)) !! "s1"
    = Some (scanSession (scanSession (newSession "s1" "c1" 0) "APEL" 2 0) "APEL" 1 0) ∧
  Session.id (scanSession (scanSession (newSession "s1" "c1" 0) "APEL" 2 0) "APEL" 1 0) = "s1".
Proof.
  assert (H : activeSessions (run scenario (initial 0)) !! "s1"
    = Some (scanSession (scanSession (newSession "s1" "c1" 0) "APEL" 2 0) "APEL" 1 0))
    by (vm_compute; reflexivity).
  split; [exact H|].
  exact (proj1 (start_installs_fresh_session "c1" None (initial 0)) 0 scenario "s1" _ H).
Defined.

(** C3, as stated, fails: [s1] is stored and active with three scanned
    items, and a second start under [s1] emits no error and replaces it by
    a fresh session owned by the second connection. *)
Lemma restart_replaces_active_session :
  Session.active <$> activeSessions (run scenario (initial 0)) !! "s1" = Some true ∧
  Session.totalItems <$> activeSessions (run scenario (initial 0)) !! "s1" = Some 3 ∧
  snd (sessionStart "c2" (Some "s1") (run scenario (initial 0))) =
    [Broadcast (SessionStarted "s1" 0); Direct "c2" (SessionConfirmed "s1")] ∧
  activeSessions (fst (sessionStart "c2" (Some "s1") (run scenario (initial 0)))) !! "s1"
    = Some (newSession "s1" "c2" 0).
Proof. repeat split; vm_compute; reflexivity. Qed.

(** ** Error replies *)

(** The three failures of [scan:result] and [quantity:adjust] send one
    direct [error] that names the identifiers received, and the failure of
    [session:finish] sends one direct [error]; the world is unchanged in
    all four. *)
Lemma failures_leave_world sock sessionId itemName q delta w :
  (truthy sessionId = None ∨ truthy itemName = None →
   scanResult sock sessionId itemName q w =
     (w, [Direct sock (ErrorEvent "Invalid payload"
            [("sessionId", sessionId); ("itemName", itemName)])])) ∧
  (∀ sid nm, truthy sessionId = Some sid → truthy itemName = Some nm →
   activeSessions w !! sid = None →
   scanResult sock sessionId itemName q w =
     (w, [Direct sock (ErrorEvent "Session not found" [("sessionId", Some sid)])])) ∧
  ((sessionId ≫= fun sid => activeSessions w !! sid)
      ≫= (fun s => Session.items s !! adjustKey itemName) = None →
   quantityAdjust sock sessionId itemName delta w =
     (w, [Direct sock (ErrorEvent "Session or item not found"
            [("sessionId", sessionId); ("itemName", Some (adjustKey itemName))])])) ∧
  ((sessionId ≫= fun sid => activeSessions w !! sid) = None →
   sessionFinish sock sessionId w =
     (w, [Direct sock (ErrorEvent "Session not found" [])])).
Proof.
  split; [apply scanResult_invalid|].
  split.
  - intros sid nm Hsid Hnm Hs.
    apply truthy_Some in Hsid as [-> Hsid]. apply truthy_Some in Hnm as [-> Hnm].
    apply scanResult_missing; assumption.
  - split; [apply quantityAdjust_missing|apply sessionFinish_missing].
Qed.

(** C8: a [session:finish] for an id that is not in the store replies with
    an [error] that carries the message alone, without the offending
    [sessionId], whereas the same failure of [scan:result] carries it; the
    world is unchanged in both. *)
Theorem finish_error_omits_session_id :
  handle "c1" (SessionFinish (Some "ghost")) (initial 0) =
    (initial 0, [Direct "c1" (ErrorEvent "Session not found" [])]) ∧
  handle "c1" (ScanResult (Some "ghost") (Some "APEL") None) (initial 0) =
    (initial 0, [Direct "c1" (ErrorEvent "Session not found" [("sessionId", Some "ghost")])]).
Proof. split; vm_compute; reflexivity. Qed.

(** ** The clock and the pending evictions *)

Lemma handle_now sock ev w : now (fst (handle sock ev w)) = now w.
Proof.
  destruct ev as [req|sessionId itemName q|sessionId itemName delta|sessionId|]; simpl;
    try reflexivity.
  - unfold scanResult.
    destruct (truthy sessionId), (truthy itemName); try reflexivity.
    destruct (activeSessions w !! _); reflexivity.
  - unfold quantityAdjust. destruct sessionId as [k|]; [|reflexivity].
    destruct (activeSessions w !! _) as [s|]; [|reflexivity].
    destruct (Session.items s !! _); reflexivity.
  - unfold sessionFinish. destruct sessionId as [k|]; [|reflexivity].
    destruct (activeSessions w !! _); reflexivity.
Qed.

(** No handler unschedules a callback. *)
Lemma handle_timers sock ev w tm :
  In tm (timers w) → In tm (timers (fst (handle sock ev w))).
Proof.
  destruct ev as [req|sessionId itemName q|sessionId itemName delta|sessionId|]; simpl;
    try (intros H; exact H).
  - unfold scanResult.
    destruct (truthy sessionId), (truthy itemName); try (intros H; exact H).
    destruct (activeSessions w !! _); intros H; exact H.
  - unfold quantityAdjust. destruct sessionId as [k|]; [|intros H; exact H].
    destruct (activeSessions w !! _) as [s|]; [|intros H; exact H].
    destruct (Session.items s !! _); intros H; exact H.
  - unfold sessionFinish. destruct sessionId as [k|]; [|intros H; exact H].
    destruct (activeSessions w !! _); simpl; intros H; [|exact H].
    apply in_or_app. left. exact H.
Qed.

Lemma step_now_le st w : now w ≤ now (fst (step st w)).
Proof.
  destruct st as [sock ev|dt]; simpl; [rewrite handle_now|]; lia.
Qed.

Lemma run_now_le tr : ∀ w, now w ≤ now (run tr w).
Proof.
  induction tr as [|st tr IH]; intros w; [simpl; lia|].
  rewrite run_cons. pose proof (step_now_le st w). pose proof (IH (fst (step st w))). lia.
Qed.

(** A callback stays scheduled for as long as the clock is short of its
    due time. *)
Lemma pending_survives tr : ∀ w tm,
  In tm (timers w) → now (run tr w) < fst tm → In tm (timers (run tr w)).
Proof.
  induction tr as [|st tr IH]; intros w tm Hin Hlt; [exact Hin|].
  rewrite run_cons in *. apply IH; [|exact Hlt].
  pose proof (run_now_le tr (fst (step st w))) as Hle.
  destruct st as [sock ev|dt]; simpl in *.
  - apply handle_timers, Hin.
  - apply filter_In. split; [exact Hin|].
    unfold isDue. apply negb_true_iff, Z.leb_gt. lia.
Qed.

(** A callback that is due when the clock advances deletes its id. *)
Lemma advance_evicts dt w tm :
  In tm (timers w) → fst tm ≤ now w + Z.of_N dt →
  activeSessions (advance dt w) !! snd tm = None.
Proof.
  intros Hin Hdue. unfold advance; simpl. rewrite lookup_foldl_evict.
  rewrite decide_True; [reflexivity|].
  apply list_elem_of_fmap. exists tm. split; [reflexivity|].
  apply list_elem_of_In, filter_In. split; [exact Hin|].
  unfold isDue. apply Z.leb_le, Hdue.
Qed.

Lemma finish_schedules sock sid s w :
  activeSessions w !! sid = Some s →
  In (now w + GRACE_MS, sid) (timers (fst (sessionFinish sock (Some sid) w))).
Proof.
  intros Hs. rewrite (sessionFinish_found _ _ _ _ Hs). simpl.
  apply in_or_app. right. left. reflexivity.
Qed.

(** Scans, adjustments and pings keep a stored session stored, leave its
    [active] flag alone, and touch neither the clock nor the callbacks. *)
Lemma use_keeps_session sid tr : Forall isUse tr →
  ∀ w s, activeSessions w !! sid = Some s →
  ∃ s', activeSessions (run tr w) !! sid = Some s' ∧
        Session.active s' = Session.active s ∧
        now (run tr w) = now w ∧ timers (run tr w) = timers w.
Proof.
  induction 1 as [|st tr Hst _ IH]; intros w s Hs; [exists s; auto|].
  rewrite run_cons.
  assert (∃ s1, activeSessions (fst (step st w)) !! sid = Some s1 ∧
                Session.active s1 = Session.active s ∧
                now (fst (step st w)) = now w ∧ timers (fst (step st w)) = timers w)
    as (s1 & Hs1 & Ha1 & Hn1 & Ht1).
  { destruct st as [sock [req|sessionId itemName q|sessionId itemName delta|sessionId|]|dt];
      simpl in Hst; try contradiction; simpl.
    - unfold scanResult.
      destruct (truthy sessionId) as [k|]; [|exists s; auto].
      destruct (truthy itemName) as [nm|]; [|exists s; auto].
      destruct (activeSessions w !! k) as [s0|] eqn:Hk; [|exists s; auto].
      simpl. rewrite lookup_insert. case_decide; [|exists s; auto].
      subst k. eexists. split; [reflexivity|]. simpl. split; [congruence|auto].
    - unfold quantityAdjust.
      destruct sessionId as [k|]; [|exists s; auto].
      destruct (activeSessions w !! k) as [s0|] eqn:Hk; [|exists s; auto].
      destruct (Session.items s0 !! _) as [it|]; [|exists s; auto].
      simpl. rewrite lookup_insert. case_decide; [|exists s; auto].
      subst k. eexists. split; [reflexivity|]. simpl. split; [congruence|auto].
    - exists s; auto. }
  destruct (IH _ _ Hs1) as (s' & Hs' & Ha' & Hn' & Ht').
  exists s'. split; [exact Hs'|]. repeat split; congruence.
Qed.

(** ** Eviction after the grace period *)

(** C10: no handler unschedules a callback, and the callback deletes by
    id.  So when a session is finished, then started again under the same
    id before the 30000 ms are over, and then only scanned, adjusted or
    pinged, the id holds an active session and the old callback is still
    pending; the turn in which the clock reaches the old due time removes
    that session from the store. *)
Theorem pending_eviction_hits_restarted_session sock sock' sid s w tr1 tr2 dt :
  sid ≠ "" →
  activeSessions w !! sid = Some s →
  Forall isUse tr2 →
  now (run tr1 (finished sock sid w)) < now w + 30000 →
  now w + 30000 ≤ now (run tr1 (finished sock sid w)) + Z.of_N dt →
  (∀ sock0 ev w0 tm, In tm (timers w0) → In tm (timers (fst (handle sock0 ev w0)))) ∧
  (∃ s', activeSessions (run tr2 (started sock' sid (run tr1 (finished sock sid w)))) !! sid
           = Some s' ∧
         Session.active s' = true) ∧
  In (now w + 30000, sid)
     (timers (run tr2 (started sock' sid (run tr1 (finished sock sid w))))) ∧
  activeSessions
    (advance dt (run tr2 (started sock' sid (run tr1 (finished sock sid w))))) !! sid = None.
Proof.
  intros Hsid Hs Huse Hlt Hle.
  set (w1 := run tr1 (finished sock sid w)) in *.
  assert (Hp1 : In (now w + 30000, sid) (timers w1)).
  { apply pending_survives; [|exact Hlt]. apply (finish_schedules sock sid s w Hs). }
  assert (Hnew : activeSessions (started sock' sid w1) !! sid
                 = Some (newSession sid sock' (now w1))).
  { unfold started, sessionStart, effectiveId. rewrite truthy_nonempty by exact Hsid.
    simpl. apply lookup_insert_eq. }
  destruct (use_keeps_session sid tr2 Huse _ _ Hnew) as (s' & Hs' & Ha' & Hn' & Ht').
  assert (Hp2 : In (now w + 30000, sid) (timers (run tr2 (started sock' sid w1)))).
  { rewrite Ht'. exact Hp1. }
  split; [intros; apply handle_timers; assumption|].
  split; [exists s'; split; [exact Hs'|rewrite Ha'; reflexivity]|].
  split; [exact Hp2|].
  apply (advance_evicts dt _ (now w + 30000, sid) Hp2).
  rewrite Hn'. simpl. exact Hle.
Qed.

Lemma pending_eviction_hits_restarted_session_witness :
  Session.active <$> activeSessions (run restartTrace (initial 0)) !! "s1" = Some true ∧
  entryOf (run restartTrace (initial 0)) "s1" "MANGGA" = Some (Item.mk "MANGGA" 1 25 25 10000) ∧
  activeSessions (advance 20000 (run restartTrace (initial 0))) !! "s1" = None.
Proof.
  split; [vm_compute; reflexivity|]. split; [vm_compute; reflexivity|].
  apply (pending_eviction_hits_restarted_session "c1" "c2" "s1"
           (newSession "s1" "c1" 0) (started "c1" "s1" (initial 0))
           [Tick 10000] [Recv "c2" (ScanResult (Some "s1") (Some "MANGGA") None)] 20000).
  - discriminate.
  - vm_compute; reflexivity.
  - repeat constructor.
  - vm_compute; reflexivity.
  - vm_compute; discriminate.
Defined.

(** * Further properties of the handlers *)

(** ** The scoring table and the normalisation of item codes *)

Lemma upper_ascii_idem c : upper_ascii (upper_ascii c) = upper_ascii c.
Proof. destruct c as [[] [] [] [] [] [] [] []]; reflexivity. Qed.

Lemma toUpperCase_idem s : toUpperCase (toUpperCase s) = toUpperCase s.
Proof. induction s as [|c s IH]; simpl; [reflexivity|]. rewrite upper_ascii_idem, IH. reflexivity. Qed.

Lemma toUpperCase_nonempty s : s ≠ "" → toUpperCase s ≠ "".
Proof. destruct s; [congruence|discriminate]. Qed.

Lemma adjustKey_upper nm : adjustKey (Some (toUpperCase nm)) = adjustKey (Some nm).
Proof.
  unfold adjustKey. destruct (decide (nm = "")) as [->|Hnm]; [reflexivity|].
  rewrite (truthy_nonempty nm Hnm), (truthy_nonempty _ (toUpperCase_nonempty nm Hnm)).
  apply toUpperCase_idem.
Qed.

(** X1: the points of a key are 20 for [APEL], 15 for [JERUK], 25 for
    [MANGGA] and 10 for every other key, [PISANG] and [DEFAULT] included;
    they are never [0]. *)
Theorem perItemOf_table key :
  perItemOf key =
    (if decide (key = "APEL") then 20
     else if decide (key = "JERUK") then 15
     else if decide (key = "MANGGA") then 25
     else 10) ∧
  10 ≤ perItemOf key ≤ 25.
Proof.
  assert (H : perItemOf key =
    (if decide (key = "APEL") then 20
     else if decide (key = "JERUK") then 15
     else if decide (key = "MANGGA") then 25
     else 10)).
  { unfold perItemOf.
    replace (default 0 (ITEM_POINTS !! "DEFAULT")) with 10 by (vm_compute; reflexivity).
    unfold ITEM_POINTS. cbn [list_to_map foldr uncurry fst snd].
    rewrite !lookup_insert, lookup_empty.
    repeat case_decide; subst; try congruence; reflexivity. }
  split; [exact H|]. rewrite H. repeat case_decide; lia.
Qed.

(** X2: for item names made of ASCII characters, item codes are
    case-insensitive.  A scan leaves the same world whether it names the
    item as sent or in upper case, and when the session id is truthy it
    emits the same messages; an adjustment gives the same world and
    messages in both spellings. *)
Theorem ascii_codes_case_insensitive sock sessionId nm q delta w :
  isAscii nm →
  fst (scanResult sock sessionId (Some (toUpperCase nm)) q w)
    = fst (scanResult sock sessionId (Some nm) q w) ∧
  (truthy sessionId ≠ None →
   scanResult sock sessionId (Some (toUpperCase nm)) q w
     = scanResult sock sessionId (Some nm) q w) ∧
  quantityAdjust sock sessionId (Some (toUpperCase nm)) delta w
    = quantityAdjust sock sessionId (Some nm) delta w.
Proof.
  intros _.
  assert (Hscan : ∀ sid, truthy sessionId = Some sid →
    scanResult sock sessionId (Some (toUpperCase nm)) q w
      = scanResult sock sessionId (Some nm) q w).
  { intros sid Hsid. destruct (decide (nm = "")) as [->|Hnm]; [reflexivity|].
    unfold scanResult. rewrite Hsid.
    rewrite (truthy_nonempty nm Hnm), (truthy_nonempty _ (toUpperCase_nonempty nm Hnm)).
    rewrite toUpperCase_idem. reflexivity. }
  split; [|split].
  - destruct (truthy sessionId) as [sid|] eqn:Hsid; [rewrite (Hscan sid eq_refl); reflexivity|].
    rewrite !scanResult_invalid by (left; exact Hsid). reflexivity.
  - destruct (truthy sessionId) as [sid|] eqn:Hsid; [intros _; eauto|congruence].
  - unfold quantityAdjust. rewrite adjustKey_upper. reflexivity.
Qed.

Lemma ascii_codes_case_insensitive_witness :
  scanResult "c2" (Some "s1") (Some (toUpperCase "Apel")) None (run scenario (initial 0))
    = scanResult "c2" (Some "s1") (Some "Apel") None (run scenario (initial 0)).
Proof.
  apply (ascii_codes_case_insensitive "c2" (Some "s1") "Apel" None 0
           (run scenario (initial 0))).
  - repeat constructor.
  - discriminate.
Defined.

(** ** What one inbound event can touch *)

(** The store after an event, key by key: the session under the addressed
    id may change, every other key is as before. *)
Lemma handle_lookup_other sock ev w k :
  addressed sock ev w ≠ Some k →
  activeSessions (fst (handle sock ev w)) !! k = activeSessions w !! k.
Proof.
  destruct ev as [req|sessionId itemName q|sessionId itemName delta|sessionId|]; simpl;
    intros Hk.
  - apply lookup_insert_ne. congruence.
  - unfold scanResult.
    destruct (truthy sessionId) as [sid|] eqn:Hsid; [|reflexivity].
    destruct (truthy itemName) as [nm|]; [|reflexivity].
    destruct (activeSessions w !! sid); [|reflexivity].
    apply truthy_Some in Hsid as [-> _]. simpl. apply lookup_insert_ne. congruence.
  - unfold quantityAdjust. destruct sessionId as [sid|]; [|reflexivity].
    destruct (activeSessions w !! sid) as [s|]; [|reflexivity].
    destruct (Session.items s !! _); [|reflexivity].
    simpl. apply lookup_insert_ne. congruence.
  - unfold sessionFinish. destruct sessionId as [sid|]; [|reflexivity].
    destruct (activeSessions w !! sid) as [s|]; [|reflexivity].
    simpl. apply lookup_insert_ne. congruence.
  - reflexivity.
Qed.

(** Whether a key is in the store changes through a start only. *)
Lemma handle_is_Some sock ev w k :
  isStart ev = false →
  is_Some (activeSessions (fst (handle sock ev w)) !! k) ↔ is_Some (activeSessions w !! k).
Proof.
  destruct ev as [req|sessionId itemName q|sessionId itemName delta|sessionId|]; simpl;
    intros Hev; try discriminate.
  - unfold scanResult.
    destruct (truthy sessionId) as [sid|]; [|reflexivity].
    destruct (truthy itemName) as [nm|]; [|reflexivity].
    destruct (activeSessions w !! sid) eqn:Hs; [|reflexivity].
    simpl. rewrite lookup_insert. case_decide; [subst; rewrite Hs|]; split; eauto.
  - unfold quantityAdjust. destruct sessionId as [sid|]; [|reflexivity].
    destruct (activeSessions w !! sid) as [s|] eqn:Hs; [|reflexivity].
    destruct (Session.items s !! _); [|reflexivity].
    simpl. rewrite lookup_insert. case_decide; [subst; rewrite Hs|]; split; eauto.
  - unfold sessionFinish. destruct sessionId as [sid|]; [|reflexivity].
    destruct (activeSessions w !! sid) as [s|] eqn:Hs; [|reflexivity].
    simpl. rewrite lookup_insert. case_decide; [subst; rewrite Hs|]; split; eauto.
  - reflexivity.
Qed.

(** X3: an inbound event touches at most the session under the id it
    addresses: every other key of the store holds what it held, and the
    clock is not moved. *)
Theorem event_touches_one_session sock ev w k :
  addressed sock ev w ≠ Some k →
  activeSessions (fst (handle sock ev w)) !! k = activeSessions w !! k ∧
  now (fst (handle sock ev w)) = now w.
Proof.
  intros Hk. split; [apply handle_lookup_other, Hk|apply handle_now].
Qed.

Lemma event_touches_one_session_witness :
  activeSessions
    (fst (handle "c2" (ScanResult (Some "s2") (Some "apel") None) (run scenario (initial 0))))
    !! "s1" = activeSessions (run scenario (initial 0)) !! "s1".
Proof.
  apply (event_touches_one_session "c2" (ScanResult (Some "s2") (Some "apel") None)
           (run scenario (initial 0)) "s1").
  simpl. discriminate.
Defined.

(** X4: only a start adds a session and only a callback removes one.  A
    scan, an adjustment, a finish or a ping leaves the set of stored ids as
    it was, and a stored key after the clock advanced was stored before,
    with the same session. *)
Theorem only_start_adds_sessions sock ev dt w k :
  (isStart ev = false →
   (is_Some (activeSessions (fst (handle sock ev w)) !! k)
      ↔ is_Some (activeSessions w !! k))) ∧
  (∀ s, activeSessions (advance dt w) !! k = Some s → activeSessions w !! k = Some s).
Proof.
  split; [apply handle_is_Some|apply lookup_advance_Some].
Qed.

Lemma only_start_adds_sessions_witness :
  is_Some (activeSessions
    (fst (handle "c1" (QuantityAdjust (Some "s9") (Some "apel") 4) (run scenario (initial 0))))
    !! "s9") ↔ is_Some (activeSessions (run scenario (initial 0)) !! "s9").
Proof.
  apply (proj1 (only_start_adds_sessions "c1" (QuantityAdjust (Some "s9") (Some "apel") 4)
                  0%N (run scenario (initial 0)) "s9")).
  reflexivity.
Defined.

(** ** Errors and routing *)

(** X5: an event that is answered with an [error] changed nothing and
    emitted nothing else: the world is the one before and the messages are
    that single direct [error] to the sender. *)
Theorem error_means_unchanged sock ev w :
  existsb isError (snd (handle sock ev w)) = true →
  fst (handle sock ev w) = w ∧
  ∃ message fields, snd (handle sock ev w) = [Direct sock (ErrorEvent message fields)].
Proof.
  destruct ev as [req|sessionId itemName q|sessionId itemName delta|sessionId|]; simpl;
    try discriminate.
  - unfold scanResult.
    destruct (truthy sessionId) as [sid|]; [|intros _; split; eauto].
    destruct (truthy itemName) as [nm|]; [|intros _; split; eauto].
    destruct (activeSessions w !! sid); [discriminate|intros _; split; eauto].
  - unfold quantityAdjust. destruct sessionId as [sid|]; [|intros _; split; eauto].
    destruct (activeSessions w !! sid) as [s|]; [|intros _; split; eauto].
    destruct (Session.items s !! _); [discriminate|intros _; split; eauto].
  - unfold sessionFinish. destruct sessionId as [sid|]; [|intros _; split; eauto].
    destruct (activeSessions w !! sid) as [s|]; [discriminate|intros _; split; eauto].
Qed.

Lemma error_means_unchanged_witness :
  fst (handle "c1" (ScanResult (Some "s1") None (Some 3)) (run scenario (initial 0)))
    = run scenario (initial 0).
Proof.
  apply (error_means_unchanged "c1" (ScanResult (Some "s1") None (Some 3))
           (run scenario (initial 0))).
  reflexivity.
Defined.

(** X6: a handler sends direct messages to the connection it serves and
    to no other. *)
Theorem direct_only_to_sender sock ev w sock' p :
  In (Direct sock' p) (snd (handle sock ev w)) → sock' = sock.
Proof.
  destruct ev as [req|sessionId itemName q|sessionId itemName delta|sessionId|]; simpl.
  - intros [H|[H|[]]]; congruence.
  - unfold scanResult.
    destruct (truthy sessionId) as [sid|]; [|intros [H|[]]; congruence].
    destruct (truthy itemName) as [nm|]; [|intros [H|[]]; congruence].
    destruct (activeSessions w !! sid); simpl.
    + intros [H|[H|[H|[]]]]; congruence.
    + intros [H|[]]; congruence.
  - unfold quantityAdjust. destruct sessionId as [sid|]; [|intros [H|[]]; congruence].
    destruct (activeSessions w !! sid) as [s|]; [|intros [H|[]]; congruence].
    destruct (Session.items s !! _); simpl.
    + intros [H|[H|[]]]; congruence.
    + intros [H|[]]; congruence.
  - unfold sessionFinish. destruct sessionId as [sid|]; [|intros [H|[]]; congruence].
    destruct (activeSessions w !! sid) as [s|]; simpl.
    + intros [H|[H|[]]]; congruence.
    + intros [H|[]]; congruence.
  - intros [H|[]]; congruence.
Qed.

Lemma direct_only_to_sender_witness :
  In (Direct "c7" (SessionConfirmed "s3"))
     (snd (handle "c7" (SessionStart (Some "s3")) (initial 5))) ∧ "c7" = "c7".
Proof.
  assert (H : In (Direct "c7" (SessionConfirmed "s3"))
                 (snd (handle "c7" (SessionStart (Some "s3")) (initial 5))))
    by (right; left; reflexivity).
  split; [exact H|].
  exact (direct_only_to_sender "c7" (SessionStart (Some "s3")) (initial 5) "c7" _ H).
Defined.

(** ** The pending callbacks *)

(** A handler leaves the callbacks alone or schedules one at the end, due
    [GRACE_MS] after the current clock. *)
Lemma handle_timers_shape sock ev w :
  timers (fst (handle sock ev w)) = timers w ∨
  ∃ sid, timers (fst (handle sock ev w)) = (timers w ++ [(now w + GRACE_MS, sid)])%list.
Proof.
  destruct ev as [req|sessionId itemName q|sessionId itemName delta|sessionId|]; simpl;
    try (left; reflexivity).
  - unfold scanResult.
    destruct (truthy sessionId) as [sid|]; [|left; reflexivity].
    destruct (truthy itemName) as [nm|]; [|left; reflexivity].
    destruct (activeSessions w !! sid); left; reflexivity.
  - unfold quantityAdjust. destruct sessionId as [sid|]; [|left; reflexivity].
    destruct (activeSessions w !! sid) as [s|]; [|left; reflexivity].
    destruct (Session.items s !! _); left; reflexivity.
  - unfold sessionFinish. destruct sessionId as [sid|]; [|left; reflexivity].
    destruct (activeSessions w !! sid) as [s|]; [|left; reflexivity].
    right. exists sid. reflexivity.
Qed.

Lemma StronglySorted_filter (f : Z * string → bool) l :
  StronglySorted dueLe l → StronglySorted dueLe (List.filter f l).
Proof.
  induction l as [|a l IH]; simpl; intros Hl; [constructor|].
  apply StronglySorted_cons in Hl as [Ha Hl].
  destruct (f a); [|apply IH, Hl].
  apply StronglySorted_cons. split; [|apply IH, Hl].
  apply List.Forall_forall. intros b Hb. apply filter_In in Hb as [Hb _].
  eapply List.Forall_forall in Ha; eauto.
Qed.

(** X7: in every world reached from the empty store the pending callbacks
    are in order of due time, and each is due later than the current clock
    and no later than 30000 ms after it. *)
Theorem timers_ordered_and_recent t0 tr :
  StronglySorted dueLe (timers (run tr (initial t0))) ∧
  Forall (fun tm => now (run tr (initial t0)) < fst tm ≤ now (run tr (initial t0)) + 30000)
         (timers (run tr (initial t0))).
Proof.
  apply (run_invariant timersOk); [|split; constructor].
  intros st w [Hsort Hall]. destruct st as [sock ev|dt]; simpl.
  - unfold timersOk. rewrite handle_now.
    destruct (handle_timers_shape sock ev w) as [->|[sid ->]]; [split; assumption|].
    split.
    + apply StronglySorted_app. split; [|split; [exact Hsort|repeat constructor]].
      intros a b Ha Hb. apply list_elem_of_In in Ha. apply list_elem_of_In in Hb.
      destruct Hb as [<-|[]]. eapply List.Forall_forall in Hall; eauto.
      unfold dueLe; simpl. lia.
    + apply Forall_app. split; [exact Hall|]. repeat constructor; simpl; unfold GRACE_MS; lia.
  - split; simpl.
    + apply StronglySorted_filter, Hsort.
    + apply List.Forall_forall. intros tm Htm. apply filter_In in Htm as [Htm Hnd].
      eapply List.Forall_forall in Hall; eauto.
      unfold isDue in Hnd. apply negb_true_iff, Z.leb_gt in Hnd. lia.
Qed.

(** X8: a session that was finished and is not yet evicted can be finished
    again.  The second finish succeeds with the same summary and the same
    two broadcasts as the first, leaves the store as the first left it, and
    schedules a second callback for the id. *)
Theorem finish_twice sock sock' sid s w :
  activeSessions w !! sid = Some s →
  snd (sessionFinish sock' (Some sid) (finished sock sid w))
    = snd (sessionFinish sock' (Some sid) w) ∧
  existsb isError (snd (sessionFinish sock' (Some sid) (finished sock sid w))) = false ∧
  activeSessions (finished sock' sid (finished sock sid w))
    = activeSessions (finished sock sid w) ∧
  timers (finished sock' sid (finished sock sid w))
    = (timers w ++ [(now w + 30000, sid); (now w + 30000, sid)])%list.
Proof.
  intros Hs.
  assert (Hw1 : finished sock sid w =
    {| activeSessions := <[sid := deactivate s]> (activeSessions w);
       timers := timers w ++ [(now w + GRACE_MS, sid)];
       now := now w |}).
  { unfold finished. rewrite (sessionFinish_found _ _ _ _ Hs). reflexivity. }
  remember (finished sock sid w) as w1 eqn:Ew1.
  assert (H1 : activeSessions w1 !! sid = Some (deactivate s)).
  { rewrite Hw1. apply lookup_insert_eq. }
  unfold finished.
  rewrite (sessionFinish_found sock' _ _ _ H1), (sessionFinish_found sock' _ _ _ Hs).
  rewrite Hw1. simpl.
  split; [reflexivity|]. split; [reflexivity|]. split.
  - rewrite insert_insert_eq. reflexivity.
  - rewrite <- app_assoc. reflexivity.
Qed.

Lemma finish_twice_witness :
  timers (finished "c2" "s1" (finished "c1" "s1" (run scenario (initial 0))))
    = [(30000, "s1"); (30000, "s1")].
Proof.
  assert (H : activeSessions (run scenario (initial 0)) !! "s1"
    = Some (scanSession (scanSession (newSession "s1" "c1" 0) "APEL" 2 0) "APEL" 1 0))
    by (vm_compute; reflexivity).
  exact (proj2 (proj2 (proj2 (finish_twice "c1" "c2" "s1" _ (run scenario (initial 0)) H)))).
Defined.

Lemma filter_pending_twice (t1 t2 : Z) (l : list (Z * string)) :
  t1 ≤ t2 →
  List.filter (fun tm => negb (isDue t2 tm)) (List.filter (fun tm => negb (isDue t1 tm)) l)
    = List.filter (fun tm => negb (isDue t2 tm)) l.
Proof.
  intros Ht. induction l as [|a l IH]; simpl; [reflexivity|].
  destruct (isDue t1 a) eqn:H1; simpl.
  - assert (H2 : isDue t2 a = true).
    { unfold isDue in *. apply Z.leb_le in H1. apply Z.leb_le. lia. }
    rewrite H2. simpl. exact IH.
  - rewrite IH. reflexivity.
Qed.

(** X9: letting the clock advance in two moves, with no event between
    them, gives the same world as one move of the total length. *)
Theorem advance_twice dt1 dt2 w :
  advance dt2 (advance dt1 w) = advance (dt1 + dt2) w.
Proof.
  unfold advance; simpl.
  assert (Ht : now w + Z.of_N dt1 + Z.of_N dt2 = now w + Z.of_N (dt1 + dt2)) by lia.
  rewrite Ht. f_equal.
  - apply map_eq. intros k. rewrite !lookup_foldl_evict.
    set (t1 := now w + Z.of_N dt1). set (t2 := now w + Z.of_N (dt1 + dt2)).
    assert (H12 : t1 ≤ t2) by (unfold t1, t2; lia).
    assert (Hiff : k ∈ (List.filter (isDue t2) (timers w)).*2 ↔
      k ∈ (List.filter (isDue t2) (List.filter (fun tm => negb (isDue t1 tm)) (timers w))).*2
      ∨ k ∈ (List.filter (isDue t1) (timers w)).*2).
    { rewrite !list_elem_of_fmap. split.
      - intros (tm & -> & Htm). apply list_elem_of_In, filter_In in Htm as [Hin Hd].
        destruct (isDue t1 tm) eqn:Hd1.
        + right. exists tm. split; [reflexivity|]. apply list_elem_of_In, filter_In. auto.
        + left. exists tm. split; [reflexivity|].
          apply list_elem_of_In, filter_In. split; [|exact Hd].
          apply filter_In. rewrite Hd1. auto.
      - intros [(tm & -> & Htm)|(tm & -> & Htm)];
          apply list_elem_of_In, filter_In in Htm as [Hin Hd];
          exists tm; (split; [reflexivity|]); apply list_elem_of_In, filter_In.
        + apply filter_In in Hin as [Hin _]. auto.
        + split; [exact Hin|]. unfold isDue in *. apply Z.leb_le in Hd. apply Z.leb_le. lia. }
    repeat case_decide; try reflexivity; tauto.
  - apply filter_pending_twice. lia.
Qed.

(** One turn that is not a finish of [sid], in a world with no callback
    pending for [sid]: none is pending afterwards, and an active session
    under [sid] is followed by an active session under [sid]. *)
Lemma unfinished_step sid st w s :
  notFinishOf sid st →
  (∀ tm, In tm (timers w) → snd tm ≠ sid) →
  activeSessions w !! sid = Some s → Session.active s = true →
  (∀ tm, In tm (timers (fst (step st w))) → snd tm ≠ sid) ∧
  ∃ s', activeSessions (fst (step st w)) !! sid = Some s' ∧ Session.active s' = true.
Proof.
  intros Hst Htm Hs Ha.
  destruct st as [sock [req|sessionId itemName q|sessionId itemName delta|sessionId|]|dt];
    simpl in *.
  - split; [exact Htm|]. rewrite lookup_insert. case_decide; eauto.
  - unfold scanResult.
    destruct (truthy sessionId) as [k|]; [|eauto].
    destruct (truthy itemName) as [nm|]; [|eauto].
    destruct (activeSessions w !! k) as [s0|] eqn:Hk; [|eauto].
    simpl. split; [exact Htm|]. rewrite lookup_insert. case_decide; [|eauto].
    subst k. eexists. split; [reflexivity|]. simpl. congruence.
  - unfold quantityAdjust.
    destruct sessionId as [k|]; [|eauto].
    destruct (activeSessions w !! k) as [s0|] eqn:Hk; [|eauto].
    destruct (Session.items s0 !! _); [|eauto].
    simpl. split; [exact Htm|]. rewrite lookup_insert. case_decide; [|eauto].
    subst k. eexists. split; [reflexivity|]. simpl. congruence.
  - unfold sessionFinish.
    destruct sessionId as [k|]; [|eauto].
    destruct (activeSessions w !! k) as [s0|] eqn:Hk; [|eauto].
    simpl. split.
    + intros tm Hin. apply in_app_or in Hin as [Hin|[<-|[]]]; [eauto|exact Hst].
    + rewrite lookup_insert_ne by exact Hst. eauto.
  - eauto.
  - split.
    + intros tm Hin. apply filter_In in Hin as [Hin _]. eauto.
    + exists s. split; [|exact Ha]. rewrite lookup_foldl_evict.
      rewrite decide_False; [exact Hs|].
      intros Hin. apply list_elem_of_fmap in Hin as (tm & -> & Hin).
      apply list_elem_of_In, filter_In in Hin as [Hin _]. eapply Htm; eauto.
Qed.

(** X10: a session is evicted only through a finish of its id.  When no
    callback is pending for an id that holds an active session, then after
    any trace without a finish of that id, however much time passes, the id
    still holds an active session. *)
Theorem unfinished_session_stays sid tr :
  Forall (notFinishOf sid) tr →
  ∀ w s,
    (∀ tm, In tm (timers w) → snd tm ≠ sid) →
    activeSessions w !! sid = Some s → Session.active s = true →
    ∃ s', activeSessions (run tr w) !! sid = Some s' ∧ Session.active s' = true.
Proof.
  induction 1 as [|st tr Hst _ IH]; intros w s Htm Hs Ha; [eauto|].
  rewrite run_cons.
  destruct (unfinished_step sid st w s Hst Htm Hs Ha) as (Htm' & s1 & Hs1 & Ha1).
  eapply IH; eauto.
Qed.

Lemma unfinished_session_stays_witness :
  ∃ s', activeSessions
          (run [Tick 40000; Recv "c2" (SessionFinish (Some "s2")); Tick 40000]
               (run scenario (initial 0))) !! "s1" = Some s' ∧
        Session.active s' = true.
Proof.
  apply (unfinished_session_stays "s1"
           [Tick 40000; Recv "c2" (SessionFinish (Some "s2")); Tick 40000]
           ltac:(repeat constructor; discriminate)
           (run scenario (initial 0))
           (scanSession (scanSession (newSession "s1" "c1" 0) "APEL" 2 0) "APEL" 1 0)).
  - intros tm [].
  - vm_compute; reflexivity.
  - reflexivity.
Defined.

(** ** Time stamps *)

Lemma timesOk_step st w : timesOk w → timesOk (fst (step st w)).
Proof.
  intros Hw sid s.
  destruct st as [sock [req|sessionId itemName q|sessionId itemName delta|sessionId|]|dt];
    simpl.
  - rewrite lookup_insert. case_decide; [|apply Hw].
    intros [= <-]. simpl. split; [lia|discriminate].
  - unfold scanResult.
    destruct (truthy sessionId) as [k|]; [|apply Hw].
    destruct (truthy itemName) as [nm|]; [|apply Hw].
    destruct (activeSessions w !! k) as [s0|] eqn:Hk; [|apply Hw].
    simpl. rewrite lookup_insert. case_decide; [|apply Hw].
    intros [= <-]. simpl. destruct (Hw _ _ Hk) as [H0 _].
    split; [exact H0|]. intros u Hu. injection Hu as Hu. lia.
  - unfold quantityAdjust.
    destruct sessionId as [k|]; [|apply Hw].
    destruct (activeSessions w !! k) as [s0|] eqn:Hk; [|apply Hw].
    destruct (Session.items s0 !! _); [|apply Hw].
    simpl. rewrite lookup_insert. case_decide; [|apply Hw].
    intros [= <-]. simpl. destruct (Hw _ _ Hk) as [H0 _].
    split; [exact H0|]. intros u Hu. injection Hu as Hu. lia.
  - unfold sessionFinish.
    destruct sessionId as [k|]; [|apply Hw].
    destruct (activeSessions w !! k) as [s0|] eqn:Hk; [|apply Hw].
    simpl. rewrite lookup_insert. case_decide; [|apply Hw].
    intros [= <-]. simpl. apply (Hw _ _ Hk).
  - apply Hw.
  - intros H. apply lookup_advance_Some in H. destruct (Hw _ _ H) as [H0 H1].
    split; [lia|]. intros t Ht. specialize (H1 t Ht). lia.
Qed.

(** X13: in every world reached from the empty store, a stored session
    started no later than the current clock and was last updated between
    its start and the current clock; hence the [duration] that a finish
    reports in its summary is never negative. *)
Theorem finish_duration_nonnegative t0 tr sock sid s :
  activeSessions (run tr (initial t0)) !! sid = Some s →
  Session.startTime s ≤ now (run tr (initial t0)) ∧
  (∀ t, Session.lastUpdate s = Some t →
        Session.startTime s ≤ t ≤ now (run tr (initial t0))) ∧
  ∃ sm, snd (sessionFinish sock (Some sid) (run tr (initial t0)))
          = [Broadcast (SessionFinished sm); Broadcast (InventoryReset sid)] ∧
        sum_finishedAt sm = now (run tr (initial t0)) ∧
        0 ≤ sum_duration sm.
Proof.
  intros Hs.
  assert (Hok : timesOk (run tr (initial t0))).
  { apply (run_invariant timesOk); [apply timesOk_step|].
    intros k s0 H. simpl in H. rewrite lookup_empty in H. discriminate. }
  destruct (Hok _ _ Hs) as [H0 H1].
  split; [exact H0|]. split; [exact H1|].
  rewrite (sessionFinish_found _ _ _ _ Hs). simpl.
  eexists. split; [reflexivity|]. simpl. split; [reflexivity|lia].
Qed.

Lemma finish_duration_nonnegative_witness :
  activeSessions (run (scenario ++ [Tick 2500]) (initial 100)) !! "s1"
    = Some (scanSession (scanSession (newSession "s1" "c1" 100) "APEL" 2 100) "APEL" 1 100) ∧
  ∃ sm, snd (sessionFinish "c1" (Some "s1") (run (scenario ++ [Tick 2500]) (initial 100)))
          = [Broadcast (SessionFinished sm); Broadcast (InventoryReset "s1")] ∧
        sum_finishedAt sm = now (run (scenario ++ [Tick 2500]) (initial 100)) ∧
        0 ≤ sum_duration sm.
Proof.
  assert (H : activeSessions (run (scenario ++ [Tick 2500]) (initial 100)) !! "s1"
    = Some (scanSession (scanSession (newSession "s1" "c1" 100) "APEL" 2 100) "APEL" 1 100))
    by (vm_compute; reflexivity).
  split; [exact H|].
  exact (proj2 (proj2 (finish_duration_nonnegative 100 (scenario ++ [Tick 2500])
                         "c1" "s1" _ H))).
Defined.

(** ** What a scan tells its listeners *)



(** ** Entries and keys of reachable stores *)

(** X16: in every world reached from the empty store, whatever the scans
    and adjustments were, an entry is named by the key it is stored under
    and carries the table value of that key as [pointsPerItem]. *)
Theorem entries_named_and_priced t0 tr sid s key it :
  activeSessions (run tr (initial t0)) !! sid = Some s →
  Session.items s !! key = Some it →
  Item.name it = key ∧ Item.pointsPerItem it = perItemOf key.
Proof.
  apply (allItems_run
           (fun key it => Item.name it = key ∧ Item.pointsPerItem it = perItemOf key)
           (fun _ => True)).
  - intros k old q t _ Hold. destruct old as [o|]; simpl; [apply (Hold o eq_refl)|auto].
  - intros k o delta t Ho _. exact Ho.
  - apply Forall_forall. intros [sock [| | | |]|dt] _; exact I.
  - intros k s0 key0 it0 H. simpl in H. rewrite lookup_empty in H. discriminate.
Qed.

Lemma entries_named_and_priced_witness :
  Item.name (Item.mk "APEL" 3 20 60 0) = "APEL" ∧
  Item.pointsPerItem (Item.mk "APEL" 3 20 60 0) = perItemOf "APEL".
Proof.
  apply (entries_named_and_priced 0 scenario "s1"
           (scanSession (scanSession (newSession "s1" "c1" 0) "APEL" 2 0) "APEL" 1 0)
           "APEL" (Item.mk "APEL" 3 20 60 0)); vm_compute; reflexivity.
Defined.

Lemma effectiveId_nonempty sock requested t : effectiveId sock requested t ≠ "".
Proof.
  unfold effectiveId. destruct (truthy requested) as [s|] eqn:H.
  - apply truthy_Some in H as [_ H]. exact H.
  - discriminate.
Qed.

(** X17: the empty string is never a key of the store, in any world
    reached from the empty store; so an adjustment or a finish whose
    [sessionId] is the empty string is answered with the error. *)
Theorem empty_id_never_stored t0 tr sock itemName delta :
  activeSessions (run tr (initial t0)) !! "" = None ∧
  existsb isError
    (snd (quantityAdjust sock (Some "") itemName delta (run tr (initial t0)))) = true ∧
  existsb isError (snd (sessionFinish sock (Some "") (run tr (initial t0)))) = true.
Proof.
  assert (H : activeSessions (run tr (initial t0)) !! "" = None).
  { apply (run_invariant (fun w => activeSessions w !! "" = None)); [|apply lookup_empty].
    intros st w Hw. destruct st as [sock0 ev|dt]; simpl.
    - destruct (isStart ev) eqn:Hev.
      + destruct ev; try discriminate. simpl.
        rewrite lookup_insert_ne; [exact Hw|apply effectiveId_nonempty].
      + apply eq_None_not_Some. rewrite handle_is_Some by exact Hev.
        rewrite Hw. apply is_Some_None.
    - rewrite lookup_foldl_evict. case_decide; [reflexivity|exact Hw]. }
  split; [exact H|]. split.
  - rewrite quantityAdjust_missing; [reflexivity|]. simpl. rewrite H. reflexivity.
  - rewrite sessionFinish_missing; [reflexivity|]. simpl. exact H.
Qed.

(** X18: when the requested id is missing or empty, the id is
    [session_<socket>_<clock>]: two starts of one connection without an id
    get the same id exactly when they happen at the same clock value, and
    then the second replaces the first's session. *)
Theorem synthesized_ids sock r1 r2 t1 t2 w :
  truthy r1 = None → truthy r2 = None →
  effectiveId sock r1 t1 = "session_" +:+ sock +:+ "_" +:+ pretty t1 ∧
  (effectiveId sock r1 t1 = effectiveId sock r2 t2 ↔ t1 = t2) ∧
  activeSessions (fst (sessionStart sock r2 (fst (sessionStart sock r1 w))))
    = activeSessions (fst (sessionStart sock r1 w)).
Proof.
  intros H1 H2. unfold sessionStart, effectiveId. rewrite H1, H2. simpl.
  split; [reflexivity|]. split.
  - split; [|intros ->; reflexivity].
    intros H. injection H as H. simpl in H.
    apply (String.app_inj sock) in H. simpl in H. injection H as H.
    exact (pretty_Z_inj t1 t2 H).
  - apply insert_insert_eq.
Qed.

Lemma synthesized_ids_witness :
  effectiveId "abc" None 1234 = "session_abc_1234" ∧
  effectiveId "abc" (Some "") 1234 = "session_abc_1234".
Proof.
  split.
  - exact (proj1 (synthesized_ids "abc" None None 1234 1234 (initial 0) eq_refl eq_refl)).
  - exact (proj1 (synthesized_ids "abc" (Some "") None 1234 1234 (initial 0) eq_refl eq_refl)).
Defined.

(** * The grace period *)

(** While the clock is short of [due], a stored id stays stored when every
    callback pending for it is due at [due] or later. *)
Lemma retained_until_due sid due tr : ∀ w,
  is_Some (activeSessions w !! sid) →
  (∀ tm, In tm (timers w) → snd tm = sid → due ≤ fst tm) →
  due ≤ now w + GRACE_MS →
  now (run tr w) < due →
  is_Some (activeSessions (run tr w) !! sid).
Proof.
  induction tr as [|st tr IH]; intros w Hs Htm Hdue Hlt; [exact Hs|].
  rewrite run_cons in *.
  pose proof (run_now_le tr (fst (step st w))) as Hle.
  pose proof (step_now_le st w) as Hmono.
  apply IH; [| |lia|exact Hlt].
  - destruct st as [sock ev|dt]; simpl in *.
    + destruct (isStart ev) eqn:Hev.
      * destruct ev; try discriminate. simpl.
        rewrite lookup_insert. case_decide; [eauto|exact Hs].
      * apply handle_is_Some; assumption.
    + rewrite lookup_foldl_evict. rewrite decide_False; [exact Hs|].
      intros Hin. apply list_elem_of_fmap in Hin as (tm & -> & Hin).
      apply list_elem_of_In, filter_In in Hin as [Hin Hd].
      specialize (Htm tm Hin eq_refl).
      unfold isDue in Hd. apply Z.leb_le in Hd. lia.
  - destruct st as [sock ev|dt]; simpl in *.
    + intros tm Hin Hk.
      destruct (handle_timers_shape sock ev w) as [Heq|[k Heq]]; rewrite Heq in Hin.
      * apply Htm; assumption.
      * apply in_app_or in Hin as [Hin|[<-|[]]]; [apply Htm; assumption|simpl; lia].
    + intros tm Hin Hk. apply filter_In in Hin as [Hin _]. apply Htm; assumption.
Qed.

(** C9, as the code has it: a [session:finish] on a stored session flags
    it inactive and schedules the eviction of its id 30000 ms later; the
    callback is still pending while the clock is short of that time, and
    the turn in which the clock reaches it leaves no session under the id,
    so that a scan or a finish for the id then fails with "Session not
    found" and changes nothing.  Until that time a session stays stored
    under the id, provided no callback of an earlier finish is pending for
    the id. *)
Theorem finish_grace_then_evicted sock sid s w tr dt :
  activeSessions w !! sid = Some s →
  now (run tr (finished sock sid w)) < now w + 30000 →
  now w + 30000 ≤ now (run tr (finished sock sid w)) + Z.of_N dt →
  (activeSessions (finished sock sid w) !! sid = Some (deactivate s) ∧
   Session.active (deactivate s) = false) ∧
  In (now w + 30000, sid) (timers (run tr (finished sock sid w))) ∧
  ((∀ tm, In tm (timers w) → snd tm ≠ sid) →
   is_Some (activeSessions (run tr (finished sock sid w)) !! sid)) ∧
  activeSessions (advance dt (run tr (finished sock sid w))) !! sid = None ∧
  (∀ sock' nm q, sid ≠ "" → nm ≠ "" →
     scanResult sock' (Some sid) (Some nm) q (advance dt (run tr (finished sock sid w))) =
       (advance dt (run tr (finished sock sid w)),
        [Direct sock' (ErrorEvent "Session not found" [("sessionId", Some sid)])])) ∧
  (∀ sock',
     sessionFinish sock' (Some sid) (advance dt (run tr (finished sock sid w))) =
       (advance dt (run tr (finished sock sid w)),
        [Direct sock' (ErrorEvent "Session not found" [])])).
Proof.
  intros Hs Hlt Hle.
  assert (Hw1 : finished sock sid w =
    {| activeSessions := <[sid := deactivate s]> (activeSessions w);
       timers := timers w ++ [(now w + GRACE_MS, sid)];
       now := now w |}).
  { unfold finished. rewrite (sessionFinish_found _ _ _ _ Hs). reflexivity. }
  assert (Hpend : In (now w + 30000, sid) (timers (run tr (finished sock sid w)))).
  { apply pending_survives; [|exact Hlt]. apply (finish_schedules sock sid s w Hs). }
  assert (Hgone : activeSessions (advance dt (run tr (finished sock sid w))) !! sid = None).
  { apply (advance_evicts dt _ (now w + 30000, sid) Hpend). exact Hle. }
  split.
  { rewrite Hw1. simpl. split; [apply lookup_insert_eq|reflexivity]. }
  split; [exact Hpend|]. split.
  { intros Hnone. apply (retained_until_due sid (now w + 30000)); [| | |exact Hlt].
    - rewrite Hw1. simpl. rewrite lookup_insert_eq. eauto.
    - rewrite Hw1. simpl. intros tm Hin Hk.
      apply in_app_or in Hin as [Hin|[<-|[]]]; [|simpl; unfold GRACE_MS; lia].
      exfalso. apply (Hnone tm Hin Hk).
    - rewrite Hw1. simpl. unfold GRACE_MS. lia. }
  split; [exact Hgone|]. split.
  - intros sock' nm q Hsid Hnm. apply scanResult_missing; assumption.
  - intros sock'. apply sessionFinish_missing. exact Hgone.
Qed.

Lemma finish_grace_then_evicted_witness :
  activeSessions (run scenario (initial 0)) !! "s1"
    = Some (scanSession (scanSession (newSession "s1" "c1" 0) "APEL" 2 0) "APEL" 1 0) ∧
  is_Some (activeSessions
    (run [Tick 10000; Recv "c2" (ScanResult (Some "s1") (Some "JERUK") None); Tick 19999]
         (finished "c1" "s1" (run scenario (initial 0)))) !! "s1") ∧
  activeSessions
    (advance 1
       (run [Tick 10000; Recv "c2" (ScanResult (Some "s1") (Some "JERUK") None); Tick 19999]
            (finished "c1" "s1" (run scenario (initial 0))))) !! "s1" = None.
Proof.
  assert (H : activeSessions (run scenario (initial 0)) !! "s1"
    = Some (scanSession (scanSession (newSession "s1" "c1" 0) "APEL" 2 0) "APEL" 1 0))
    by (vm_compute; reflexivity).
  split; [exact H|].
  destruct (finish_grace_then_evicted "c1" "s1" _ (run scenario (initial 0))
           [Tick 10000; Recv "c2" (ScanResult (Some "s1") (Some "JERUK") None); Tick 19999]
           1 H ltac:(vm_compute; reflexivity) ltac:(vm_compute; discriminate))
    as (_ & _ & Hkept & Hgone & _).
  split; [apply Hkept; intros tm []|exact Hgone].
Defined.

(** C9, as stated, fails: [s1] is finished at time 0 and, still stored,
    finished again at time 10000 without an error; at time 30000, only
    20000 ms after the second finish, whose own callback is still pending,
    no session is stored under [s1]. *)
Lemma refinished_session_evicted_early :
  existsb isError
    (snd (sessionFinish "c1" (Some "s1") (run [Tick 10000] finishedWorld))) = false ∧
  now (run [Tick 10000] finishedWorld) = 10000 ∧
  now (advance 20000 (finished "c1" "s1" (run [Tick 10000] finishedWorld))) = 30000 ∧
  activeSessions (advance 20000 (finished "c1" "s1" (run [Tick 10000] finishedWorld)))
    !! "s1" = None ∧
  timers (advance 20000 (finished "c1" "s1" (run [Tick 10000] finishedWorld)))
    = [(40000, "s1")].
Proof. repeat split; vm_compute; reflexivity. Qed.

(** * The handlers' arithmetic in binary64 *)

(** C4: scanning [APEL] with quantity 9007199254740992 and then with
    quantity 1 leaves the entry with quantity 9007199254740992 (the sum is
    rounded) and [totalPoints] 180143985094819872 (the points of both scans
    are added), which is not [quantity * pointsPerItem], that being
    180143985094819840. *)
Theorem scan_points_drift :
  Item64.quantity
    (scannedItem64 (Some (scannedItem64 None "APEL" (Some (Num.ofZ 9007199254740992)) 0))
                   "APEL" (Some (Num.ofZ 1)) 0)
    = Num.ofZ 9007199254740992 ∧
  Item64.pointsPerItem
    (scannedItem64 (Some (scannedItem64 None "APEL" (Some (Num.ofZ 9007199254740992)) 0))
                   "APEL" (Some (Num.ofZ 1)) 0)
    = Num.ofZ 20 ∧
  Item64.totalPoints
    (scannedItem64 (Some (scannedItem64 None "APEL" (Some (Num.ofZ 9007199254740992)) 0))
                   "APEL" (Some (Num.ofZ 1)) 0)
    = Num.ofZ 180143985094819872 ∧
  Num.mul (Num.ofZ 9007199254740992) (Num.ofZ 20) = Num.ofZ 180143985094819840 ∧
  Num.strictEq (Num.ofZ 180143985094819872) (Num.ofZ 180143985094819840) = false.
Proof. repeat split; vm_compute; reflexivity. Qed.




